(** * Principal-scoped signing canister: shallow embedding and properties

    The canister of [src/index.ts] keeps three stable maps (salt, owner,
    public-key cache) and talks to the management canister through
    [fetch].  Its methods are embedded as programs of a small free monad
    whose nodes are the effects the code performs: reading and writing the
    stable maps, throwing, and awaiting a [fetch]. *)

From Stdlib Require Import ZArith NArith String Ascii List Lia.
From Stdlib.Strings Require Import Byte.
From stdpp Require Import gmap strings.
Import ListNotations.

Set Warnings "-register-all".

Local Open Scope string_scope.
Local Open Scope Z_scope.

(** ** Bytes and JavaScript values *)

(** A [Uint8Array]: every element is a byte by construction. *)
Definition Uint8Array : Type := list byte.

(** A value of Candid type [nat8] ([IDL.Nat8]): one of 0 .. 255, and the
    JavaScript number it is handed to a method as. *)
Definition Nat8 : Type := byte.

Definition nat8_value (n : Nat8) : Z := Z.of_N (Byte.to_N n).

(** [arr.length] as a JavaScript number. *)
Definition js_length {A : Type} (l : list A) : Z := Z.of_nat (List.length l).

(** Truthiness of a JavaScript string: only the empty string is falsy. *)
Definition truthy_string (s : string) : bool :=
  match s with
  | EmptyString => false
  | String _ _ => true
  end.

(** Values that [response.json()] can deliver.  Numbers are integers and
    arrays hold numbers, which is the shape the management canister's
    byte vectors decode to. *)
Inductive JsonValue : Type :=
| JUndefined
| JNull
| JBool (b : bool)
| JNumber (n : Z)
| JString (s : string)
| JArray (elems : list Z)
| JObject (fields : list (string * JsonValue)).

(** [!!v] *)
Definition truthy (v : JsonValue) : bool :=
  match v with
  | JUndefined | JNull => false
  | JBool b => b
  | JNumber n => negb (n =? 0)
  | JString s => truthy_string s
  | JArray _ | JObject _ => true
  end.

(** [Array.isArray(v)] *)
Definition Array_isArray (v : JsonValue) : bool :=
  match v with
  | JArray _ => true
  | _ => false
  end.

(** Property lookup in an object literal: the last binding of a name wins. *)
Fixpoint get_field (name : string) (fields : list (string * JsonValue)) : JsonValue :=
  match fields with
  | [] => JUndefined
  | (k, v) :: rest =>
      match get_field name rest with
      | JUndefined => if String.eqb k name then v else JUndefined
      | later => later
      end
  end.

(** [v.name] for a truthy [v]: only objects carry named fields here. *)
Definition member (v : JsonValue) (name : string) : JsonValue :=
  match v with
  | JObject fields => get_field name fields
  | _ => JUndefined
  end.

(** The numbers of an array value ([[]] for anything else). *)
Definition array_elems (v : JsonValue) : list Z :=
  match v with
  | JArray elems => elems
  | _ => []
  end.

(** ToUint8 of an integer: reduction modulo 256. *)
Definition toUint8 (n : Z) : byte :=
  match Byte.of_N (Z.to_N (n mod 256)) with
  | Some b => b
  | None => x00
  end.

(** [new Uint8Array(array)] *)
Definition new_Uint8Array (elems : list Z) : Uint8Array := map toUint8 elems.

(** ** Hex rendering: [bytesToHex] *)

Definition hex_digit (d : N) : ascii :=
  match d with
  | 0%N => "0" | 1%N => "1" | 2%N => "2" | 3%N => "3"
  | 4%N => "4" | 5%N => "5" | 6%N => "6" | 7%N => "7"
  | 8%N => "8" | 9%N => "9" | 10%N => "a" | 11%N => "b"
  | 12%N => "c" | 13%N => "d" | 14%N => "e" | _ => "f"
  end%char.

(** [b.toString(16)] for an element [b] of a [Uint8Array]: one digit below
    16, two digits from 16 on, never a leading zero. *)
Definition toString16 (b : byte) : string :=
  let n := Byte.to_N b in
  if (n <? 16)%N then String (hex_digit n) ""
  else String (hex_digit (n / 16)) (String (hex_digit (n mod 16)) "").

Fixpoint replicate_char (n : nat) (c : ascii) : string :=
  match n with
  | O => ""
  | S n' => String c (replicate_char n' c)
  end.

(** [s.padStart(target, c)] for a one-character pad string. *)
Definition padStart (target : nat) (c : ascii) (s : string) : string :=
  String.append (replicate_char (target - String.length s) c) s.

(** [function bytesToHex(bytes)] *)
Definition bytesToHex (bytes : Uint8Array) : string :=
  String.append "0x"
    (String.concat "" (map (fun b => padStart 2 "0"%char (toString16 b)) bytes)).

(** Decoding as the test suite does it: drop the two-character prefix, cut
    the rest into pairs, read each pair in base 16.  A pair that is not made
    of two hex digits (where [parseInt] would stop early or give NaN) and a
    trailing single character make the decoder refuse. *)
Definition hex_value (c : ascii) : option N :=
  let n := N_of_ascii c in
  if ((48 <=? n) && (n <=? 57))%N then Some (n - 48)%N
  else if ((97 <=? n) && (n <=? 102))%N then Some (n - 87)%N
  else if ((65 <=? n) && (n <=? 70))%N then Some (n - 55)%N
  else None.

Fixpoint parse_pairs (s : string) : option Uint8Array :=
  match s with
  | "" => Some []
  | String hi (String lo rest) =>
      match hex_value hi, hex_value lo, parse_pairs rest with
      | Some h, Some l, Some bs =>
          match Byte.of_N (16 * h + l) with
          | Some b => Some (b :: bs)
          | None => None
          end
      | _, _, _ => None
      end
  | String _ "" => None
  end.

Definition hexToBytes (hex : string) : option Uint8Array :=
  match hex with
  | String _ (String _ digits) => parse_pairs digits
  | _ => None
  end.

(** Characters of a lowercase hex rendering. *)
Definition is_lower_hex (c : ascii) : bool :=
  let n := N_of_ascii c in
  (((48 <=? n) && (n <=? 57)) || ((97 <=? n) && (n <=? 102)))%N.

Fixpoint string_forall (p : ascii -> bool) (s : string) : bool :=
  match s with
  | "" => true
  | String c rest => p c && string_forall p rest
  end.

(** ** Principals

    [Principal] is the class of [@dfinity/principal] that [azle] re-exports;
    the canister uses its [toText], [toUint8Array] and [compareTo]. *)
Module Principal.

Record t : Type := fromUint8Array { toUint8Array : Uint8Array }.

(** CRC-32 (reflected polynomial [0xEDB88320]), one bit at a time; the
    library reads the same values from a 256-entry table. *)
Definition crc32_shift (crc : Z) : Z :=
  if Z.testbit crc 0 then Z.lxor (Z.shiftr crc 1) 3988292384
  else Z.shiftr crc 1.

Definition crc32_byte (crc : Z) (b : byte) : Z :=
  Nat.iter 8 crc32_shift (Z.lxor crc (Z.of_N (Byte.to_N b))).

Definition getCrc32 (buf : Uint8Array) : Z :=
  Z.lxor (fold_left crc32_byte buf 4294967295) 4294967295.

(** [DataView.setUint32(0, n)]: the four bytes of [n], big endian. *)
Definition uint32_bytes (n : Z) : Uint8Array :=
  map (fun k => toUint8 (Z.shiftr n k)) [24; 16; 8; 0].

(** Base 32 without padding over the alphabet [a-z2-7]: the bits of the
    input, most significant first, five at a time; the last group is
    filled with zero bits. *)
Definition byte_bits (b : byte) : list bool :=
  map (fun k => N.testbit (Byte.to_N b) k) [7; 6; 5; 4; 3; 2; 1; 0]%N.

Definition bits_value (bits : list bool) : N :=
  fold_left (fun acc (b : bool) => (2 * acc + (if b then 1 else 0))%N) bits 0%N.

Definition alphabet (d : N) : ascii :=
  if (d <? 26)%N then ascii_of_N (97 + d) else ascii_of_N (50 + (d - 26)).

Fixpoint base32_groups (fuel : nat) (bits : list bool) : string :=
  match fuel, bits with
  | _, [] => ""
  | O, _ => ""
  | S fuel', _ =>
      let group := firstn 5 (bits ++ [false; false; false; false])%list in
      String (alphabet (bits_value group)) (base32_groups fuel' (skipn 5 bits))
  end.

Definition base32Encode (input : Uint8Array) : string :=
  let bits := concat (map byte_bits input) in
  base32_groups (List.length bits) bits.

(** [result.match(/.{1,5}/g).join('-')] *)
Fixpoint dash_groups (fuel : nat) (s : string) : string :=
  match fuel with
  | O => s
  | S fuel' =>
      if (String.length s <=? 5)%nat then s
      else String.append (substring 0 5 s)
             (String "-" (dash_groups fuel' (substring 5 (String.length s - 5) s)))
  end.

Definition toText (p : t) : string :=
  let checksum := uint32_bytes (getCrc32 (toUint8Array p)) in
  let result := base32Encode (checksum ++ toUint8Array p)%list in
  dash_groups (String.length result) result.

(** [compareTo]: bytewise lexicographic order, answered as one of the
    strings ['lt'], ['eq'], ['gt']. *)
Fixpoint compare_arr (a b : Uint8Array) : string :=
  match a, b with
  | x :: a', y :: b' =>
      if (Byte.to_N x <? Byte.to_N y)%N then "lt"
      else if (Byte.to_N y <? Byte.to_N x)%N then "gt"
      else compare_arr a' b'
  | [], [] => "eq"
  | [], _ :: _ => "lt"
  | _ :: _, [] => "gt"
  end.

Definition compareTo (p other : t) : string :=
  compare_arr (toUint8Array p) (toUint8Array other).

(** [Principal.anonymous()] *)
Definition anonymous : t := fromUint8Array [x04].

(** The management canister, [aaaaa-aa]. *)
Definition managementCanister : t := fromUint8Array [].

End Principal.

(** ** Constants *)

Definition ANONYMOUS_PRINCIPAL_TEXT : string := "2vxsx-fae".
Definition KEY_ID_NAME : string := "dfx_test_key".
Definition SIGN_CYCLES : Z := 30000000000.
Definition MAX_MESSAGE_BYTES : Z := 1024 * 1024.
Definition MIN_MESSAGE_BYTES : Z := 1.

(** ** Storage: the three stable maps *)

Record State : Type := mkState {
  canisterSalt : gmap string Uint8Array;
  canisterOwner : gmap string Principal.t;
  publicKeyCache : gmap string Uint8Array
}.

(** ** Failures

    Every failure of the canister is a thrown [Error]; the constructors
    follow the taxonomy of the design and [error_message] gives the text
    thrown by the code (without the interpolated status text and lengths). *)
Inductive Malformed : Type :=
| InvalidRandomness
| InvalidPublicKeyResponse
| InvalidPublicKeyLength (got : Z)
| InvalidSignatureResponse
| InvalidSignatureLength (got : Z).

Inductive Endpoint : Type := raw_rand | schnorr_public_key | sign_with_schnorr.

Inductive Error : Type :=
| Unauthenticated
| NotOwner
| AlreadyInitialized
| SaltNotInitialized
| EmptyMessage
| MessageTooLarge
| InvalidNetworkPrefix
| ProviderError (endpoint : Endpoint) (statusText : string)
| MalformedResponse (what : Malformed).

Definition error_message (e : Error) : string :=
  match e with
  | Unauthenticated => "Anonymous callers are not allowed"
  | NotOwner => "Only the canister owner can initialize the salt"
  | AlreadyInitialized => "Salt has already been initialized"
  | SaltNotInitialized =>
      "Canister salt not initialized. Owner must call initializeSalt() first."
  | EmptyMessage => "Message must be at least 1 byte(s)"
  | MessageTooLarge => "Message exceeds maximum size of 1048576 bytes"
  | InvalidNetworkPrefix => "Network prefix must be between 0 and 255"
  | ProviderError raw_rand _ => "Failed to get randomness: "
  | ProviderError schnorr_public_key _ => "Failed to get public key: "
  | ProviderError sign_with_schnorr _ => "Failed to sign message: "
  | MalformedResponse InvalidRandomness =>
      "Invalid randomness received from management canister"
  | MalformedResponse InvalidPublicKeyResponse =>
      "Invalid public key response from management canister"
  | MalformedResponse (InvalidPublicKeyLength _) =>
      "Invalid public key length: expected 32 bytes, got "
  | MalformedResponse InvalidSignatureResponse =>
      "Invalid signature response from management canister"
  | MalformedResponse (InvalidSignatureLength _) =>
      "Invalid signature length: expected 64 bytes, got "
  end.

Inductive Result (A : Type) : Type :=
| Ok (a : A)
| Err (e : Error).
Arguments Ok {A} a.
Arguments Err {A} e.

(** ** The signer provider: requests and responses of [fetch] *)

(** The body of a call to the management canister.  The key id is always
    [{ algorithm: { ed25519: null }, name }]. *)
Inductive Request : Type :=
| RawRand
| SchnorrPublicKey (derivation_path : list Uint8Array) (key_name : string)
| SignWithSchnorr (message : Uint8Array) (derivation_path : list Uint8Array)
    (key_name : string) (cycles : Z).

Definition endpoint (req : Request) : Endpoint :=
  match req with
  | RawRand => raw_rand
  | SchnorrPublicKey _ _ => schnorr_public_key
  | SignWithSchnorr _ _ _ _ => sign_with_schnorr
  end.

Definition url (req : Request) : string :=
  match endpoint req with
  | raw_rand => "icp://aaaaa-aa/raw_rand"
  | schnorr_public_key => "icp://aaaaa-aa/schnorr_public_key"
  | sign_with_schnorr => "icp://aaaaa-aa/sign_with_schnorr"
  end.

Record Response : Type := mkResponse {
  ok : bool;
  statusText : string;
  json : JsonValue
}.

(** What the provider answers to each request during one method call. *)
Definition Provider : Type := Request -> Response.

(** ** Programs

    A method body is a tree of the effects it performs.  [Fetch] is the
    only suspension point ([await fetch(...)]); everything between two of
    them runs without interruption. *)
Inductive Prog (A : Type) : Type :=
| Ret (a : A)
| Throw (e : Error)
| Read (k : State -> Prog A)
| Write (s : State) (k : Prog A)
| Fetch (req : Request) (k : Response -> Prog A).
Arguments Ret {A} a.
Arguments Throw {A} e.
Arguments Read {A} k.
Arguments Write {A} s k.
Arguments Fetch {A} req k.

Fixpoint bind {A B : Type} (p : Prog A) (f : A -> Prog B) : Prog B :=
  match p with
  | Ret a => f a
  | Throw e => Throw e
  | Read k => Read (fun s => bind (k s) f)
  | Write s k => Write s (bind k f)
  | Fetch req k => Fetch req (fun resp => bind (k resp) f)
  end.

Declare Scope prog_scope.
Delimit Scope prog_scope with prog.
Notation "x <- p ;; q" := (bind p (fun x => q))
  (at level 100, p at next level, right associativity) : prog_scope.
Notation "p ;; q" := (bind p (fun _ => q))
  (at level 100, right associativity) : prog_scope.
Local Open Scope prog_scope.

(** The machine a call runs on: the stable maps and the log of the
    requests sent to the provider so far. *)
Record Machine : Type := mkMachine {
  store : State;
  calls : list Request
}.

(** Running a call to completion, every [fetch] answered by [provider]. *)
Fixpoint run {A : Type} (provider : Provider) (p : Prog A) (m : Machine)
  : Machine * Result A :=
  match p with
  | Ret a => (m, Ok a)
  | Throw e => (m, Err e)
  | Read k => run provider (k (store m)) m
  | Write s k => run provider k (mkMachine s (calls m))
  | Fetch req k =>
      run provider (k (provider req)) (mkMachine (store m) (calls m ++ [req]))
  end.

(** *** Accessors of the stable maps *)

Definition canisterSalt_get (key : string) : Prog (option Uint8Array) :=
  Read (fun s => Ret (canisterSalt s !! key)).

Definition canisterSalt_insert (key : string) (value : Uint8Array) : Prog unit :=
  Read (fun s =>
    Write (mkState (<[key := value]> (canisterSalt s)) (canisterOwner s) (publicKeyCache s))
      (Ret tt)).

Definition canisterOwner_get (key : string) : Prog (option Principal.t) :=
  Read (fun s => Ret (canisterOwner s !! key)).

Definition canisterOwner_insert (key : string) (value : Principal.t) : Prog unit :=
  Read (fun s =>
    Write (mkState (canisterSalt s) (<[key := value]> (canisterOwner s)) (publicKeyCache s))
      (Ret tt)).

Definition publicKeyCache_get (key : string) : Prog (option Uint8Array) :=
  Read (fun s => Ret (publicKeyCache s !! key)).

Definition publicKeyCache_insert (key : string) (value : Uint8Array) : Prog unit :=
  Read (fun s =>
    Write (mkState (canisterSalt s) (canisterOwner s) (<[key := value]> (publicKeyCache s)))
      (Ret tt)).

Definition publicKeyCache_keys : Prog (list string) :=
  Read (fun s => Ret (map fst (map_to_list (publicKeyCache s)))).

Definition publicKeyCache_remove (key : string) : Prog unit :=
  Read (fun s =>
    Write (mkState (canisterSalt s) (canisterOwner s) (delete key (publicKeyCache s)))
      (Ret tt)).

(** [for (const x of xs) body(x)] *)
Fixpoint for_of {A : Type} (xs : list A) (body : A -> Prog unit) : Prog unit :=
  match xs with
  | [] => Ret tt
  | x :: rest => body x ;; for_of rest body
  end.

(** ** The canister *)

Record AddressResult : Type := mkAddressResult {
  address_public_key : Uint8Array;
  network_prefix : Nat8
}.

Record SignatureResult : Type := mkSignatureResult {
  signature : Uint8Array;
  public_key : Uint8Array
}.

Record SignatureHexResult : Type := mkSignatureHexResult {
  hex_signature : Uint8Array;
  signature_hex : string;
  hex_public_key : Uint8Array;
  public_key_hex : string
}.

(** [function getAuthenticatedCaller()]; [msgCaller] is the caller of the
    message being processed. *)
Definition getAuthenticatedCaller (msgCaller : Principal.t) : Prog Principal.t :=
  let caller := msgCaller in
  if String.eqb (Principal.toText caller) ANONYMOUS_PRINCIPAL_TEXT
  then Throw Unauthenticated
  else Ret caller.

(** [function validateMessage(message)].  The first test of the source,
    [!message || !(message instanceof Uint8Array)], never fires on a
    [Uint8Array] and has no counterpart here. *)
Definition validateMessage (message : Uint8Array) : Prog unit :=
  if js_length message <? MIN_MESSAGE_BYTES then Throw EmptyMessage
  else if js_length message >? MAX_MESSAGE_BYTES then Throw MessageTooLarge
  else Ret tt.

(** [!owner || !caller.compareTo(owner)]: the answer of [compareTo] is a
    string, and [!] of a string is [true] only for the empty one. *)
Definition owner_check_fails (owner : option Principal.t) (caller : Principal.t) : bool :=
  match owner with
  | None => true
  | Some o => negb (truthy_string (Principal.compareTo caller o))
  end.

(** [[Array.from(salt), Array.from(callerPrincipal.toUint8Array())]] *)
Definition derivationPath (salt : Uint8Array) (callerPrincipal : Principal.t)
  : list Uint8Array :=
  [salt; Principal.toUint8Array callerPrincipal].

(** [init()] *)
Definition init (msgCaller : Principal.t) : Prog unit :=
  let owner := msgCaller in
  canisterOwner_insert "owner" owner.

(** [async initializeSalt()] *)
Definition initializeSalt (msgCaller : Principal.t) : Prog string :=
  caller <- getAuthenticatedCaller msgCaller ;;
  owner <- canisterOwner_get "owner" ;;
  if owner_check_fails owner caller then Throw NotOwner else
  existingSalt <- canisterSalt_get "salt" ;;
  match existingSalt with
  | Some _ => Throw AlreadyInitialized
  | None =>
      Fetch RawRand (fun response =>
        if negb (ok response)
        then Throw (ProviderError raw_rand (statusText response))
        else
          let responseJson := json response in
          if negb (truthy responseJson)
             || negb (Array_isArray responseJson)
             || (js_length (array_elems responseJson) <? 32)
          then Throw (MalformedResponse InvalidRandomness)
          else
            let randomBytes := new_Uint8Array (array_elems responseJson) in
            canisterSalt_insert "salt" randomBytes ;;
            Ret "Salt initialized successfully with secure randomness")
  end.

(** [private async getPublicKeyForCaller()] *)
Definition getPublicKeyForCaller (msgCaller : Principal.t) : Prog Uint8Array :=
  callerPrincipal <- getAuthenticatedCaller msgCaller ;;
  let callerKey := Principal.toText callerPrincipal in
  cached <- publicKeyCache_get callerKey ;;
  match cached with
  | Some key => Ret key
  | None =>
      salt <- canisterSalt_get "salt" ;;
      match salt with
      | None => Throw SaltNotInitialized
      | Some salt =>
          let request := SchnorrPublicKey (derivationPath salt callerPrincipal) KEY_ID_NAME in
          Fetch request (fun response =>
            if negb (ok response)
            then Throw (ProviderError schnorr_public_key (statusText response))
            else
              let responseJson := json response in
              if negb (truthy responseJson)
                 || negb (truthy (member responseJson "public_key"))
                 || negb (Array_isArray (member responseJson "public_key"))
              then Throw (MalformedResponse InvalidPublicKeyResponse)
              else
                let elems := array_elems (member responseJson "public_key") in
                if negb (js_length elems =? 32)
                then Throw (MalformedResponse (InvalidPublicKeyLength (js_length elems)))
                else
                  let publicKey := new_Uint8Array elems in
                  publicKeyCache_insert callerKey publicKey ;;
                  Ret publicKey)
      end
  end.

(** [async getPublicKey()] *)
Definition getPublicKey (msgCaller : Principal.t) : Prog Uint8Array :=
  getPublicKeyForCaller msgCaller.

(** [async getAddressData(networkPrefix)], declared
    [@update([IDL.Nat8], AddressResult)]: the argument reaches the body as
    the number of a [nat8]. *)
Definition getAddressData (msgCaller : Principal.t) (networkPrefix : Nat8)
  : Prog AddressResult :=
  publicKey <- getPublicKeyForCaller msgCaller ;;
  if (nat8_value networkPrefix <? 0) || (nat8_value networkPrefix >? 255)
  then Throw InvalidNetworkPrefix
  else Ret (mkAddressResult publicKey networkPrefix).

(** [async sign(message)] *)
Definition sign (msgCaller : Principal.t) (message : Uint8Array) : Prog Uint8Array :=
  callerPrincipal <- getAuthenticatedCaller msgCaller ;;
  validateMessage message ;;
  salt <- canisterSalt_get "salt" ;;
  match salt with
  | None => Throw SaltNotInitialized
  | Some salt =>
      let request :=
        SignWithSchnorr message (derivationPath salt callerPrincipal) KEY_ID_NAME SIGN_CYCLES in
      Fetch request (fun response =>
        if negb (ok response)
        then Throw (ProviderError sign_with_schnorr (statusText response))
        else
          let responseJson := json response in
          if negb (truthy responseJson)
             || negb (truthy (member responseJson "signature"))
             || negb (Array_isArray (member responseJson "signature"))
          then Throw (MalformedResponse InvalidSignatureResponse)
          else
            let elems := array_elems (member responseJson "signature") in
            if negb (js_length elems =? 64)
            then Throw (MalformedResponse (InvalidSignatureLength (js_length elems)))
            else Ret (new_Uint8Array elems))
  end.

(** [async signWithPublicKey(message)] *)
Definition signWithPublicKey (msgCaller : Principal.t) (message : Uint8Array)
  : Prog SignatureResult :=
  signature <- sign msgCaller message ;;
  publicKey <- getPublicKeyForCaller msgCaller ;;
  Ret (mkSignatureResult signature publicKey).

(** [async signWithHex(message)] *)
Definition signWithHex (msgCaller : Principal.t) (message : Uint8Array)
  : Prog SignatureHexResult :=
  signature <- sign msgCaller message ;;
  publicKey <- getPublicKeyForCaller msgCaller ;;
  Ret (mkSignatureHexResult signature (bytesToHex signature)
         publicKey (bytesToHex publicKey)).

(** [async isInitialized()] *)
Definition isInitialized : Prog bool :=
  salt <- canisterSalt_get "salt" ;;
  Ret (match salt with Some _ => true | None => false end).

(** [async clearPublicKeyCache()] *)
Definition clearPublicKeyCache (msgCaller : Principal.t) : Prog bool :=
  caller <- getAuthenticatedCaller msgCaller ;;
  owner <- canisterOwner_get "owner" ;;
  if owner_check_fails owner caller then Ret false else
  keys <- publicKeyCache_keys ;;
  for_of keys (fun key => publicKeyCache_remove key) ;;
  Ret true.

(** ** Replaying a history of calls *)

Inductive Call : Type :=
| InitializeSalt
| GetPublicKey
| GetAddressData (networkPrefix : Nat8)
| Sign (message : Uint8Array)
| SignWithPublicKey (message : Uint8Array)
| SignWithHex (message : Uint8Array)
| IsInitialized
| ClearPublicKeyCache.

Inductive Reply : Type :=
| RText (s : string)
| RBool (b : bool)
| RBytes (bs : Uint8Array)
| RAddress (a : AddressResult)
| RSignature (r : SignatureResult)
| RSignatureHex (r : SignatureHexResult).

Definition call_prog (msgCaller : Principal.t) (c : Call) : Prog Reply :=
  match c with
  | InitializeSalt => x <- initializeSalt msgCaller ;; Ret (RText x)
  | GetPublicKey => x <- getPublicKey msgCaller ;; Ret (RBytes x)
  | GetAddressData networkPrefix =>
      x <- getAddressData msgCaller networkPrefix ;; Ret (RAddress x)
  | Sign message => x <- sign msgCaller message ;; Ret (RBytes x)
  | SignWithPublicKey message =>
      x <- signWithPublicKey msgCaller message ;; Ret (RSignature x)
  | SignWithHex message => x <- signWithHex msgCaller message ;; Ret (RSignatureHex x)
  | IsInitialized => x <- isInitialized ;; Ret (RBool x)
  | ClearPublicKeyCache => x <- clearPublicKeyCache msgCaller ;; Ret (RBool x)
  end.

(** One message: who calls, what, and what the provider answers meanwhile. *)
Record Invocation : Type := mkInvocation {
  inv_caller : Principal.t;
  inv_call : Call;
  inv_provider : Provider
}.

Definition exec (i : Invocation) (m : Machine) : Machine * Result Reply :=
  run (inv_provider i) (call_prog (inv_caller i) (inv_call i)) m.

Definition is_ok {A : Type} (r : Result A) : bool :=
  match r with
  | Ok _ => true
  | Err _ => false
  end.

(** Did this message complete an [initializeSalt]? *)
Definition initialized_by (i : Invocation) (m : Machine) : bool :=
  match inv_call i with
  | InitializeSalt => is_ok (snd (exec i m))
  | _ => false
  end.

(** The machine after a history of messages, each run to completion, and
    whether one of them completed an [initializeSalt]. *)
Fixpoint replay (history : list Invocation) (m : Machine) : Machine * bool :=
  match history with
  | [] => (m, false)
  | i :: rest =>
      let '(m', later) := replay rest (fst (exec i m)) in
      (m', initialized_by i m || later)
  end.

(** The state of a freshly installed canister whose deployer is [deployer]. *)
Definition installed (deployer : Principal.t) : Machine :=
  fst (run (fun _ => mkResponse false "" JUndefined) (init deployer)
         (mkMachine (mkState ∅ ∅ ∅) [])).

(** Predicates used in the statements. *)
Definition authenticated (caller : Principal.t) : Prop :=
  Principal.toText caller <> ANONYMOUS_PRINCIPAL_TEXT.

Definition salt_of (m : Machine) : option Uint8Array :=
  canisterSalt (store m) !! "salt".

Definition owner_of (m : Machine) : option Principal.t :=
  canisterOwner (store m) !! "owner".

Definition cached_key (m : Machine) (caller : Principal.t) : option Uint8Array :=
  publicKeyCache (store m) !! Principal.toText caller.

(** A reply of [schnorr_public_key] that passes the checks of the code: an
    object whose [public_key] is an array of exactly 32 numbers. *)
Definition key_reply (resp : Response) (elems : list Z) : Prop :=
  member (json resp) "public_key" = JArray elems /\ List.length elems = 32%nat.

(** A reply of [sign_with_schnorr] that passes the checks of the code. *)
Definition signature_reply (resp : Response) (elems : list Z) : Prop :=
  member (json resp) "signature" = JArray elems /\ List.length elems = 64%nat.

(** Every cached key has 32 bytes. *)
Definition cache_ok (s : State) : Prop :=
  forall k v, publicKeyCache s !! k = Some v -> List.length v = 32%nat.

(** [p] relates the stable maps before and after it by [R], whatever the
    provider answers and whether it returns or throws. *)
Definition respects {A : Type} (R : State -> State -> Prop) (p : Prog A) : Prop :=
  forall provider m, R (store m) (store (fst (run provider p m))).

Definition same_salt_owner (s s' : State) : Prop :=
  canisterSalt s' = canisterSalt s /\ canisterOwner s' = canisterOwner s.

(** The cache left by the removal loop of [clearPublicKeyCache]. *)
Definition remove_all (keys : list string) (cache : gmap string Uint8Array)
  : gmap string Uint8Array :=
  fold_left (fun c k => delete k c) keys cache.

(** What the hex fields promise about [bytes]: a [0x] prefix followed by
    two lowercase hex digits per byte and nothing else, decoding back to
    [bytes]. *)
Definition well_formed_hex (bytes : Uint8Array) (hex : string) : Prop :=
  exists digits,
    hex = String "0" (String "x" digits)
    /\ String.length digits = (2 * List.length bytes)%nat
    /\ string_forall is_lower_hex digits = true
    /\ hexToBytes hex = Some bytes.

Definition has_salt (m : Machine) : bool :=
  match salt_of m with
  | Some _ => true
  | None => false
  end.

(** ** Suspension

    A call runs without interruption up to its next [fetch]; there it is
    parked with its continuation, and other messages may run before the
    response arrives. *)
Inductive Suspended (A : Type) : Type :=
| Finished (r : Result A)
| Awaiting (req : Request) (k : Response -> Prog A).
Arguments Finished {A} r.
Arguments Awaiting {A} req k.

Fixpoint advance {A : Type} (p : Prog A) (s : State) : State * Suspended A :=
  match p with
  | Ret a => (s, Finished (Ok a))
  | Throw e => (s, Finished (Err e))
  | Read k => advance (k s) s
  | Write s' k => advance k s'
  | Fetch req k => (s, Awaiting req k)
  end.

(** Delivering the response a parked call waits for. *)
Definition resume {A : Type} (pending : Suspended A) (response : Response) (s : State)
  : State * Suspended A :=
  match pending with
  | Finished r => (s, Finished r)
  | Awaiting _ k => advance (k response) s
  end.

(** ** Fixtures for the concrete evaluations *)

Definition alice : Principal.t := Principal.fromUint8Array [x01].
Definition bob : Principal.t := Principal.fromUint8Array [x02].

Definition sample_provider : Provider := fun req =>
  match req with
  | RawRand => mkResponse true "" (JArray (repeat 7 32))
  | SchnorrPublicKey _ _ =>
      mkResponse true "" (JObject [("public_key", JArray (repeat 9 32))])
  | SignWithSchnorr _ _ _ _ =>
      mkResponse true "" (JObject [("signature", JArray (repeat 5 64))])
  end.

Definition sample_salt : Uint8Array := repeat x07 32.
Definition sample_key : Uint8Array := repeat x09 32.

(** A message of exactly 1,048,576 bytes. *)
Definition largest_message : Uint8Array := repeat x2a (Z.to_nat 1048576).

Definition randomness (n : Z) : Response := mkResponse true "" (JArray (repeat n 32)).

(** Owner [alice], salt absent, nothing cached. *)
Definition fresh : Machine := installed alice.

(** Owner [alice], salt present, nothing cached. *)
Definition salted : Machine :=
  mkMachine (mkState {["salt" := sample_salt]} {["owner" := alice]} ∅) [].

(** Owner [alice], salt present, [alice]'s key cached. *)
Definition warmed : Machine :=
  mkMachine (mkState {["salt" := sample_salt]} {["owner" := alice]}
               {[Principal.toText alice := sample_key]}) [].

(** * Properties *)

(** ** Known principals *)

Example toText_anonymous : Principal.toText Principal.anonymous = ANONYMOUS_PRINCIPAL_TEXT.
Proof. vm_compute. reflexivity. Qed.

Example toText_managementCanister :
  Principal.toText Principal.managementCanister = "aaaaa-aa".
Proof. vm_compute. reflexivity. Qed.

Example toText_first_local_canister :
  Principal.toText
    (Principal.fromUint8Array [x00; x00; x00; x00; x00; x00; x00; x01; x01; x01])
  = "rrkah-fqaaa-aaaaa-aaaaq-cai".
Proof. vm_compute. reflexivity. Qed.

(** ** The owner test *)

Lemma compare_arr_cases (a b : Uint8Array) :
  Principal.compare_arr a b = "lt" \/ Principal.compare_arr a b = "eq"
  \/ Principal.compare_arr a b = "gt".
Proof.
  revert b. induction a as [|x a IH]; intros [|y b]; cbn; auto.
  destruct (Byte.to_N x <? Byte.to_N y)%N; auto.
  destruct (Byte.to_N y <? Byte.to_N x)%N; auto.
Qed.

(** [compareTo] never answers a falsy value. *)
Lemma compareTo_truthy (p q : Principal.t) :
  truthy_string (Principal.compareTo p q) = true.
Proof.
  unfold Principal.compareTo.
  destruct (compare_arr_cases (Principal.toUint8Array p) (Principal.toUint8Array q))
    as [H|[H|H]]; rewrite H; reflexivity.
Qed.

Lemma compare_arr_eq (a b : Uint8Array) :
  Principal.compare_arr a b = "eq" <-> a = b.
Proof.
  revert b. induction a as [|x a IH]; intros [|y b]; cbn; try (split; congruence).
  destruct (Byte.to_N x <? Byte.to_N y)%N eqn:Hxy.
  - split; [discriminate|]. intros [= -> _]. apply N.ltb_lt in Hxy. lia.
  - destruct (Byte.to_N y <? Byte.to_N x)%N eqn:Hyx.
    + split; [discriminate|]. intros [= -> _]. apply N.ltb_lt in Hyx. lia.
    + apply N.ltb_ge in Hxy, Hyx.
      assert (x = y).
      { assert (Hn : Byte.to_N x = Byte.to_N y) by lia.
        pose proof (Byte.of_to_N x) as Hx. rewrite Hn, Byte.of_to_N in Hx. congruence. }
      subst y.
      rewrite IH. split; congruence.
Qed.

(** Full equality is what ['eq'] stands for. *)
Lemma compareTo_eq (p q : Principal.t) :
  Principal.compareTo p q = "eq" <-> p = q.
Proof.
  unfold Principal.compareTo. rewrite compare_arr_eq.
  destruct p, q; cbn. split; congruence.
Qed.

(** The test of the code lets through whoever calls, as soon as an owner is
    recorded. *)
Lemma owner_check_fails_spec (owner : option Principal.t) (caller : Principal.t) :
  owner_check_fails owner caller = match owner with Some _ => false | None => true end.
Proof. destruct owner; cbn; [|reflexivity]. now rewrite compareTo_truthy. Qed.

(** ** Running programs *)

Lemma run_bind {A B : Type} (provider : Provider) (p : Prog A) (f : A -> Prog B) :
  forall m,
    run provider (bind p f) m =
    match run provider p m with
    | (m', Ok a) => run provider (f a) m'
    | (m', Err e) => (m', Err e)
    end.
Proof.
  induction p as [a|e|k IH|s k IH|req k IH]; intros m; cbn; auto.
Qed.

Lemma authenticated_eqb (caller : Principal.t) :
  authenticated caller ->
  String.eqb (Principal.toText caller) ANONYMOUS_PRINCIPAL_TEXT = false.
Proof. intros H. now apply String.eqb_neq. Qed.

Lemma run_getAuthenticatedCaller provider caller m :
  run provider (getAuthenticatedCaller caller) m =
  if String.eqb (Principal.toText caller) ANONYMOUS_PRINCIPAL_TEXT
  then (m, Err Unauthenticated) else (m, Ok caller).
Proof.
  unfold getAuthenticatedCaller.
  now destruct (String.eqb (Principal.toText caller) ANONYMOUS_PRINCIPAL_TEXT).
Qed.

Lemma machine_eta (m : Machine) : mkMachine (store m) (calls m) = m.
Proof. now destruct m. Qed.

Lemma state_eta (s : State) :
  mkState (canisterSalt s) (canisterOwner s) (publicKeyCache s) = s.
Proof. now destruct s. Qed.

(** Unfolding one step of the interpreter without touching the maps. *)
Ltac step_run :=
  cbn [run bind canisterSalt_get canisterSalt_insert canisterOwner_get
       canisterOwner_insert publicKeyCache_get publicKeyCache_insert
       publicKeyCache_keys publicKeyCache_remove store calls
       canisterSalt canisterOwner publicKeyCache fst snd].

(** What one call of [initializeSalt] does, case by case. *)
Lemma run_initializeSalt provider caller m :
  run provider (initializeSalt caller) m =
  if String.eqb (Principal.toText caller) ANONYMOUS_PRINCIPAL_TEXT
  then (m, Err Unauthenticated)
  else
    match owner_of m with
    | None => (m, Err NotOwner)
    | Some _ =>
        match salt_of m with
        | Some _ => (m, Err AlreadyInitialized)
        | None =>
            let response := provider RawRand in
            let m1 := mkMachine (store m) (calls m ++ [RawRand]) in
            if negb (ok response)
            then (m1, Err (ProviderError raw_rand (statusText response)))
            else if negb (truthy (json response))
                    || negb (Array_isArray (json response))
                    || (js_length (array_elems (json response)) <? 32)
            then (m1, Err (MalformedResponse InvalidRandomness))
            else
              (mkMachine
                 (mkState
                    (<["salt" := new_Uint8Array (array_elems (json response))]>
                       (canisterSalt (store m)))
                    (canisterOwner (store m)) (publicKeyCache (store m)))
                 (calls m ++ [RawRand]),
               Ok "Salt initialized successfully with secure randomness")
        end
    end.
Proof.
  unfold initializeSalt, owner_of, salt_of.
  rewrite run_bind, run_getAuthenticatedCaller.
  destruct (String.eqb _ _); [reflexivity|].
  step_run. rewrite owner_check_fails_spec.
  destruct (canisterOwner (store m) !! "owner"); [|reflexivity].
  step_run. destruct (canisterSalt (store m) !! "salt"); [reflexivity|].
  step_run. cbv zeta.
  destruct (negb (ok (provider RawRand))); [reflexivity|].
  destruct (_ || _ || _); reflexivity.
Qed.

(** What one call of [getPublicKeyForCaller] does, case by case. *)
Lemma run_getPublicKeyForCaller provider caller m :
  run provider (getPublicKeyForCaller caller) m =
  if String.eqb (Principal.toText caller) ANONYMOUS_PRINCIPAL_TEXT
  then (m, Err Unauthenticated)
  else
    match cached_key m caller with
    | Some key => (m, Ok key)
    | None =>
        match salt_of m with
        | None => (m, Err SaltNotInitialized)
        | Some salt =>
            let request := SchnorrPublicKey (derivationPath salt caller) KEY_ID_NAME in
            let response := provider request in
            let m1 := mkMachine (store m) (calls m ++ [request]) in
            if negb (ok response)
            then (m1, Err (ProviderError schnorr_public_key (statusText response)))
            else if negb (truthy (json response))
                    || negb (truthy (member (json response) "public_key"))
                    || negb (Array_isArray (member (json response) "public_key"))
            then (m1, Err (MalformedResponse InvalidPublicKeyResponse))
            else
              let elems := array_elems (member (json response) "public_key") in
              if negb (js_length elems =? 32)
              then (m1, Err (MalformedResponse (InvalidPublicKeyLength (js_length elems))))
              else
                (mkMachine
                   (mkState (canisterSalt (store m)) (canisterOwner (store m))
                      (<[Principal.toText caller := new_Uint8Array elems]>
                         (publicKeyCache (store m))))
                   (calls m ++ [request]),
                 Ok (new_Uint8Array elems))
        end
    end.
Proof.
  unfold getPublicKeyForCaller, cached_key, salt_of.
  rewrite run_bind, run_getAuthenticatedCaller.
  destruct (String.eqb _ _); [reflexivity|].
  step_run. destruct (publicKeyCache (store m) !! Principal.toText caller); [reflexivity|].
  step_run. destruct (canisterSalt (store m) !! "salt") as [salt|]; [|reflexivity].
  step_run. cbv zeta.
  destruct (negb (ok _)); [reflexivity|].
  destruct (_ || _ || _); [reflexivity|].
  destruct (negb (_ =? 32)); reflexivity.
Qed.

Lemma run_validateMessage provider message m :
  run provider (validateMessage message) m =
  if js_length message <? MIN_MESSAGE_BYTES then (m, Err EmptyMessage)
  else if js_length message >? MAX_MESSAGE_BYTES then (m, Err MessageTooLarge)
  else (m, Ok tt).
Proof.
  unfold validateMessage.
  destruct (_ <? _); [reflexivity|]. destruct (_ >? _); reflexivity.
Qed.

(** What one call of [sign] does, case by case. *)
Lemma run_sign provider caller message m :
  run provider (sign caller message) m =
  if String.eqb (Principal.toText caller) ANONYMOUS_PRINCIPAL_TEXT
  then (m, Err Unauthenticated)
  else if js_length message <? MIN_MESSAGE_BYTES then (m, Err EmptyMessage)
  else if js_length message >? MAX_MESSAGE_BYTES then (m, Err MessageTooLarge)
  else
    match salt_of m with
    | None => (m, Err SaltNotInitialized)
    | Some salt =>
        let request :=
          SignWithSchnorr message (derivationPath salt caller) KEY_ID_NAME SIGN_CYCLES in
        let response := provider request in
        let m1 := mkMachine (store m) (calls m ++ [request]) in
        if negb (ok response)
        then (m1, Err (ProviderError sign_with_schnorr (statusText response)))
        else if negb (truthy (json response))
                || negb (truthy (member (json response) "signature"))
                || negb (Array_isArray (member (json response) "signature"))
        then (m1, Err (MalformedResponse InvalidSignatureResponse))
        else
          let elems := array_elems (member (json response) "signature") in
          if negb (js_length elems =? 64)
          then (m1, Err (MalformedResponse (InvalidSignatureLength (js_length elems))))
          else (m1, Ok (new_Uint8Array elems))
    end.
Proof.
  unfold sign, salt_of.
  rewrite run_bind, run_getAuthenticatedCaller.
  destruct (String.eqb _ _); [reflexivity|].
  rewrite run_bind, run_validateMessage.
  destruct (_ <? _); [reflexivity|]. destruct (_ >? _); [reflexivity|].
  step_run. destruct (canisterSalt (store m) !! "salt") as [salt|]; [|reflexivity].
  step_run. cbv zeta.
  destruct (negb (ok _)); [reflexivity|].
  destruct (_ || _ || _); [reflexivity|].
  destruct (negb (_ =? 64)); reflexivity.
Qed.

Lemma run_getAddressData provider caller networkPrefix m :
  run provider (getAddressData caller networkPrefix) m =
  match run provider (getPublicKeyForCaller caller) m with
  | (m', Ok publicKey) =>
      if (nat8_value networkPrefix <? 0) || (nat8_value networkPrefix >? 255)
      then (m', Err InvalidNetworkPrefix)
      else (m', Ok (mkAddressResult publicKey networkPrefix))
  | (m', Err e) => (m', Err e)
  end.
Proof.
  unfold getAddressData. rewrite run_bind.
  destruct (run provider (getPublicKeyForCaller caller) m) as [m' [pk|e]]; [|reflexivity].
  destruct (_ || _); reflexivity.
Qed.

Lemma run_isInitialized provider m :
  run provider isInitialized m =
  (m, Ok (match salt_of m with Some _ => true | None => false end)).
Proof. reflexivity. Qed.

(** ** Clearing the cache *)

Lemma run_for_of_remove provider (keys : list string) :
  forall m,
    run provider (for_of keys (fun key => publicKeyCache_remove key)) m =
    (mkMachine
       (mkState (canisterSalt (store m)) (canisterOwner (store m))
          (remove_all keys (publicKeyCache (store m))))
       (calls m),
     Ok tt).
Proof.
  induction keys as [|k keys IH]; intros m.
  - cbn. now rewrite state_eta, machine_eta.
  - cbn [for_of]. step_run. rewrite IH. reflexivity.
Qed.

Lemma remove_all_lookup (keys : list string) :
  forall (cache : gmap string Uint8Array) (k : string),
    remove_all keys cache !! k = if decide (k ∈ keys) then None else cache !! k.
Proof.
  induction keys as [|k0 keys IH]; intros cache k; cbn.
  - case_decide as H; [|reflexivity]. now apply not_elem_of_nil in H.
  - unfold remove_all in IH. rewrite IH.
    destruct (decide (k ∈ keys)) as [Hin|Hnin].
    + rewrite decide_True; [reflexivity|]. now apply list_elem_of_further.
    + destruct (decide (k = k0)) as [->|Hne].
      * rewrite decide_True by apply list_elem_of_here. apply lookup_delete_eq.
      * rewrite decide_False.
        -- now apply lookup_delete_ne.
        -- intros [?|?]%elem_of_cons; congruence.
Qed.

(** Removing every key of a map empties it. *)
Lemma remove_all_keys (cache : gmap string Uint8Array) :
  remove_all (map fst (map_to_list cache)) cache = ∅.
Proof.
  apply map_eq. intros k. rewrite remove_all_lookup, lookup_empty.
  case_decide as Hin; [reflexivity|].
  destruct (cache !! k) as [v|] eqn:Hk; [|reflexivity].
  exfalso. apply Hin. apply list_elem_of_In.
  change k with (fst (k, v)). apply in_map.
  apply list_elem_of_In. now apply elem_of_map_to_list.
Qed.

(** What one call of [clearPublicKeyCache] does, case by case. *)
Lemma run_clearPublicKeyCache provider caller m :
  run provider (clearPublicKeyCache caller) m =
  if String.eqb (Principal.toText caller) ANONYMOUS_PRINCIPAL_TEXT
  then (m, Err Unauthenticated)
  else
    match owner_of m with
    | None => (m, Ok false)
    | Some _ =>
        (mkMachine (mkState (canisterSalt (store m)) (canisterOwner (store m)) ∅) (calls m),
         Ok true)
    end.
Proof.
  unfold clearPublicKeyCache, owner_of.
  rewrite run_bind, run_getAuthenticatedCaller.
  destruct (String.eqb _ _); [reflexivity|].
  step_run. rewrite owner_check_fails_spec.
  destruct (canisterOwner (store m) !! "owner"); [|reflexivity].
  step_run. rewrite run_bind, run_for_of_remove. step_run.
  now rewrite remove_all_keys.
Qed.

(** ** Hex rendering *)

Lemma byte_hex_pair (b : byte) :
  padStart 2 "0" (toString16 b) =
  String (hex_digit (Byte.to_N b / 16)) (String (hex_digit (Byte.to_N b mod 16)) "").
Proof. destruct b; reflexivity. Qed.

Lemma byte_hex_lower (b : byte) :
  is_lower_hex (hex_digit (Byte.to_N b / 16)) = true
  /\ is_lower_hex (hex_digit (Byte.to_N b mod 16)) = true.
Proof. destruct b; split; reflexivity. Qed.

Lemma byte_hex_decode (b : byte) :
  exists h l,
    hex_value (hex_digit (Byte.to_N b / 16)) = Some h
    /\ hex_value (hex_digit (Byte.to_N b mod 16)) = Some l
    /\ Byte.of_N (16 * h + l) = Some b.
Proof.
  exists (Byte.to_N b / 16)%N, (Byte.to_N b mod 16)%N.
  destruct b; repeat split; reflexivity.
Qed.

Lemma concat_empty_cons (x : string) (xs : list string) :
  String.concat "" (x :: xs) = String.append x (String.concat "" xs).
Proof.
  destruct xs as [|y ys]; cbn; [|reflexivity].
  induction x as [|c x IH]; [reflexivity|]. rewrite IH at 1. reflexivity.
Qed.

(** The digits after the prefix. *)
Lemma hex_digits_cons (b : byte) (bytes : Uint8Array) :
  String.concat "" (map (fun b => padStart 2 "0"%char (toString16 b)) (b :: bytes)) =
  String (hex_digit (Byte.to_N b / 16))
    (String (hex_digit (Byte.to_N b mod 16))
       (String.concat "" (map (fun b => padStart 2 "0"%char (toString16 b)) bytes))).
Proof. cbn [map]. rewrite concat_empty_cons, byte_hex_pair. reflexivity. Qed.

Lemma hex_digits_well_formed (bytes : Uint8Array) :
  let digits := String.concat "" (map (fun b => padStart 2 "0"%char (toString16 b)) bytes) in
  String.length digits = (2 * List.length bytes)%nat
  /\ string_forall is_lower_hex digits = true
  /\ parse_pairs digits = Some bytes.
Proof.
  cbv zeta. induction bytes as [|b bytes (Hlen & Hlow & Hdec)].
  - repeat split.
  - rewrite hex_digits_cons.
    destruct (byte_hex_lower b) as [Hh Hl].
    destruct (byte_hex_decode b) as (h & l & Hvh & Hvl & Hb).
    repeat split.
    + cbn [String.length List.length]. rewrite Hlen. lia.
    + cbn [string_forall]. now rewrite Hh, Hl, Hlow.
    + cbn [parse_pairs]. now rewrite Hvh, Hvl, Hdec, Hb.
Qed.

Lemma bytesToHex_well_formed (bytes : Uint8Array) :
  well_formed_hex bytes (bytesToHex bytes).
Proof.
  exists (String.concat "" (map (fun b => padStart 2 "0"%char (toString16 b)) bytes)).
  split; [reflexivity|].
  destruct (hex_digits_well_formed bytes) as (Hlen & Hlow & Hdec).
  repeat split; assumption.
Qed.

Example bytesToHex_sample : bytesToHex [x00; x0f; xa5; xff] = "0x000fa5ff".
Proof. reflexivity. Qed.

(** ** What a call may write *)

Section Frames.

Variable R : State -> State -> Prop.
Hypothesis R_refl : forall s, R s s.
Hypothesis R_trans : forall s1 s2 s3, R s1 s2 -> R s2 s3 -> R s1 s3.

Lemma respects_bind {A B : Type} (p : Prog A) (f : A -> Prog B) :
  respects R p -> (forall a, respects R (f a)) -> respects R (bind p f).
Proof using R_trans.
  intros Hp Hf provider m. rewrite run_bind.
  specialize (Hp provider m).
  destruct (run provider p m) as [m' [a|e]]; cbn [fst] in *; [|assumption].
  eapply R_trans; [exact Hp|]. apply Hf.
Qed.

Lemma respects_Ret {A : Type} (a : A) : respects R (Ret a).
Proof using R_refl. intros provider m. apply R_refl. Qed.

Lemma respects_Throw {A : Type} (e : Error) : respects R (@Throw A e).
Proof using R_refl. intros provider m. apply R_refl. Qed.

End Frames.

Lemma same_salt_owner_refl s : same_salt_owner s s.
Proof. now split. Qed.

Lemma same_salt_owner_trans s1 s2 s3 :
  same_salt_owner s1 s2 -> same_salt_owner s2 s3 -> same_salt_owner s1 s3.
Proof. intros [? ?] [? ?]. split; congruence. Qed.

(** [sign] writes nothing at all. *)
Lemma sign_store provider caller message m :
  store (fst (run provider (sign caller message) m)) = store m.
Proof.
  rewrite run_sign. cbv zeta.
  repeat match goal with
         | |- context [if ?b then _ else _] => destruct b
         | |- context [match salt_of m with _ => _ end] => destruct (salt_of m)
         end; reflexivity.
Qed.

Lemma respects_sign caller message : respects same_salt_owner (sign caller message).
Proof. intros provider m. rewrite sign_store. apply same_salt_owner_refl. Qed.

(** [getPublicKeyForCaller] writes the cache only. *)
Lemma respects_getPublicKeyForCaller caller :
  respects same_salt_owner (getPublicKeyForCaller caller).
Proof.
  intros provider m. rewrite run_getPublicKeyForCaller. cbv zeta.
  repeat match goal with
         | |- context [if ?b then _ else _] => destruct b
         | |- context [match salt_of m with _ => _ end] => destruct (salt_of m)
         | |- context [match cached_key m caller with _ => _ end] =>
             destruct (cached_key m caller)
         end; apply same_salt_owner_refl || (split; reflexivity).
Qed.

Lemma respects_clearPublicKeyCache caller :
  respects same_salt_owner (clearPublicKeyCache caller).
Proof.
  intros provider m. rewrite run_clearPublicKeyCache.
  destruct (String.eqb _ _); [apply same_salt_owner_refl|].
  destruct (owner_of m); [split; reflexivity|apply same_salt_owner_refl].
Qed.

Create HintDb frames.

#[local] Hint Resolve same_salt_owner_refl same_salt_owner_trans
  respects_sign respects_getPublicKeyForCaller respects_clearPublicKeyCache : frames.

(** Every method other than [initializeSalt] leaves salt and owner alone. *)
Lemma respects_call_prog caller (c : Call) :
  c <> InitializeSalt -> respects same_salt_owner (call_prog caller c).
Proof.
  intros Hc.
  destruct c; [congruence| | | | | | |];
    unfold call_prog, getPublicKey, getAddressData, signWithPublicKey, signWithHex,
      isInitialized, canisterSalt_get;
    repeat first
      [ solve [eauto with frames]
      | apply respects_Ret; solve [eauto with frames]
      | apply respects_Throw; solve [eauto with frames]
      | match goal with |- respects _ (if ?b then _ else _) => destruct b end
      | match goal with
        | |- respects _ (Read _) => fail 1
        | |- _ => apply respects_bind; [eauto with frames | | intros ?]
        end ].
  intros provider m. apply same_salt_owner_refl.
Qed.

(** ** Replies of the provider *)

Lemma new_Uint8Array_length (elems : list Z) :
  List.length (new_Uint8Array elems) = List.length elems.
Proof. unfold new_Uint8Array. now rewrite length_map. Qed.

(** The bytes of [new Uint8Array(elems)] are the elements modulo 256, so
    the elements themselves when they already are bytes. *)
Lemma toUint8_value (n : Z) : Z.of_N (Byte.to_N (toUint8 n)) = n mod 256.
Proof.
  unfold toUint8.
  assert (Hrange : 0 <= n mod 256 < 256) by (apply Z.mod_pos_bound; lia).
  destruct (Byte.of_N (Z.to_N (n mod 256))) as [b|] eqn:Hb.
  - apply Byte.to_of_N in Hb. rewrite Hb. lia.
  - apply Byte.of_N_None_iff in Hb. lia.
Qed.

Lemma new_Uint8Array_values (elems : list Z) :
  map (fun b => Z.of_N (Byte.to_N b)) (new_Uint8Array elems)
  = map (fun n => n mod 256) elems.
Proof.
  unfold new_Uint8Array. rewrite map_map.
  apply map_ext. intros n. apply toUint8_value.
Qed.

Lemma member_array_truthy (v : JsonValue) (name : string) (elems : list Z) :
  member v name = JArray elems -> truthy v = true.
Proof. destruct v; cbn; congruence. Qed.

Lemma js_length_eqb {A : Type} (l : list A) (n : nat) :
  (js_length l =? Z.of_nat n) = Nat.eqb (List.length l) n.
Proof.
  unfold js_length.
  destruct (Nat.eqb_spec (List.length l) n) as [->|Hne].
  - apply Z.eqb_refl.
  - apply Z.eqb_neq. lia.
Qed.

(** The shape test of a reply passes exactly on an array-valued field. *)
Lemma shape_checks (v : JsonValue) (name : string) :
  negb (truthy v) || negb (truthy (member v name)) || negb (Array_isArray (member v name))
  = match member v name with JArray _ => false | _ => true end.
Proof.
  destruct (member v name) as [| |b|n|s|elems|fields] eqn:Hm; cbn;
    rewrite ?orb_true_r; try reflexivity.
  now rewrite (member_array_truthy _ _ _ Hm).
Qed.

(** A key that [getPublicKeyForCaller] returns is the caller's cached key
    afterwards; cached keys keep their 32 bytes. *)
Lemma getPublicKeyForCaller_caches provider caller m m1 key :
  run provider (getPublicKeyForCaller caller) m = (m1, Ok key) ->
  cached_key m1 caller = Some key
  /\ (cache_ok (store m) -> List.length key = 32%nat /\ cache_ok (store m1)).
Proof.
  intros Hrun. rewrite run_getPublicKeyForCaller in Hrun. cbv zeta in Hrun.
  destruct (String.eqb _ _); [discriminate|].
  destruct (cached_key m caller) as [key0|] eqn:Hk.
  { injection Hrun as <- <-. split; [assumption|].
    intros Hok. split; [|assumption]. eapply Hok. exact Hk. }
  destruct (salt_of m) as [salt|]; [|discriminate].
  destruct (negb (ok _)); [discriminate|].
  destruct (_ || _ || _); [discriminate|].
  destruct (negb (js_length _ =? 32)) eqn:Hlen; [discriminate|].
  injection Hrun as <- <-. unfold cached_key. cbn [store publicKeyCache].
  split; [apply lookup_insert_eq|].
  apply negb_false_iff in Hlen. change 32 with (Z.of_nat 32) in Hlen.
  rewrite js_length_eqb in Hlen. apply Nat.eqb_eq in Hlen.
  intros Hok. rewrite new_Uint8Array_length. split; [assumption|].
  intros k v. cbn [store publicKeyCache]. rewrite lookup_insert.
  case_decide; [intros [= <-]; now rewrite new_Uint8Array_length|apply Hok].
Qed.

(** ** C7: the public-key cache *)

(** C7. For an authenticated caller, [getPublicKey] answers from the cache
    without calling the provider or changing the state; on a miss it fails
    with [SaltNotInitialized] when the salt is absent; with the salt present
    it sends one [schnorr_public_key] request, fails with [ProviderError]
    on a failed transport, with [MalformedResponse] unless the reply
    carries an array of exactly 32 elements, and otherwise stores the
    32-byte key (the elements of the reply, as bytes) under the caller and
    returns it.  After a successful call
    the key is cached, so every further call by the same caller returns the
    same key, whatever the provider would answer. *)
Theorem getPublicKey_cached_or_fetched provider caller m :
  authenticated caller ->
  (forall key, cached_key m caller = Some key ->
     run provider (getPublicKey caller) m = (m, Ok key))
  /\ (cached_key m caller = None -> salt_of m = None ->
      run provider (getPublicKey caller) m = (m, Err SaltNotInitialized))
  /\ (forall salt, cached_key m caller = None -> salt_of m = Some salt ->
      let request := SchnorrPublicKey (derivationPath salt caller) KEY_ID_NAME in
      let m1 := mkMachine (store m) (calls m ++ [request]) in
      (ok (provider request) = false ->
         run provider (getPublicKey caller) m =
         (m1, Err (ProviderError schnorr_public_key (statusText (provider request)))))
      /\ (ok (provider request) = true ->
          ~ (exists elems, key_reply (provider request) elems) ->
          exists what,
            run provider (getPublicKey caller) m = (m1, Err (MalformedResponse what)))
      /\ (forall elems,
            ok (provider request) = true -> key_reply (provider request) elems ->
            run provider (getPublicKey caller) m =
            (mkMachine
               (mkState (canisterSalt (store m)) (canisterOwner (store m))
                  (<[Principal.toText caller := new_Uint8Array elems]>
                     (publicKeyCache (store m))))
               (calls m ++ [request]),
             Ok (new_Uint8Array elems))
            /\ List.length (new_Uint8Array elems) = 32%nat
            /\ map (fun b => Z.of_N (Byte.to_N b)) (new_Uint8Array elems)
               = map (fun n => n mod 256) elems))
  /\ (forall m1 key,
        run provider (getPublicKey caller) m = (m1, Ok key) ->
        cached_key m1 caller = Some key
        /\ (forall provider', run provider' (getPublicKey caller) m1 = (m1, Ok key))
        /\ (cache_ok (store m) -> List.length key = 32%nat /\ cache_ok (store m1))).
Proof.
  intros Hauth. apply authenticated_eqb in Hauth.
  unfold getPublicKey.
  assert (Hhit : forall provider0 m0 key,
             cached_key m0 caller = Some key ->
             run provider0 (getPublicKeyForCaller caller) m0 = (m0, Ok key)).
  { intros provider0 m0 key Hk.
    now rewrite run_getPublicKeyForCaller, Hauth, Hk. }
  split; [intros key; apply Hhit|].
  split.
  { intros Hmiss Hsalt. now rewrite run_getPublicKeyForCaller, Hauth, Hmiss, Hsalt. }
  split.
  { intros salt Hmiss Hsalt.
    rewrite run_getPublicKeyForCaller, Hauth, Hmiss, Hsalt. cbv zeta.
    set (request := SchnorrPublicKey (derivationPath salt caller) KEY_ID_NAME).
    rewrite shape_checks.
    split; [intros ->; reflexivity|].
    split.
    - intros -> Hbad. cbn [negb].
      destruct (member (json (provider request)) "public_key")
        as [| |b|n|s|elems|fields] eqn:Hm; try (eexists; reflexivity).
      cbn [array_elems]. change 32 with (Z.of_nat 32). rewrite js_length_eqb.
      destruct (Nat.eqb_spec (List.length elems) 32) as [Hlen|Hlen]; cbn [negb].
      + exfalso. apply Hbad. exists elems. now split.
      + eexists; reflexivity.
    - intros elems -> [Hm Hlen]. cbn [negb]. rewrite Hm. cbn [array_elems].
      change 32 with (Z.of_nat 32). rewrite js_length_eqb, Hlen. cbn [Nat.eqb negb].
      split; [reflexivity|]. split; [now rewrite new_Uint8Array_length|].
      apply new_Uint8Array_values. }
  intros m1 key Hrun.
  pose proof (getPublicKeyForCaller_caches _ _ _ _ _ Hrun) as Hcached.
  destruct Hcached as [Hc Hlen].
  split; [assumption|]. split; [|assumption].
  intros provider'. now apply Hhit.
Qed.

Lemma authenticated_alice : authenticated alice.
Proof. unfold authenticated. vm_compute. discriminate. Defined.

Lemma authenticated_bob : authenticated bob.
Proof. unfold authenticated. vm_compute. discriminate. Defined.

Lemma getPublicKey_cached_or_fetched_witness :
  authenticated alice
  /\ run sample_provider (getPublicKey alice) salted =
     (mkMachine
        (mkState (canisterSalt (store salted)) (canisterOwner (store salted))
           (<[Principal.toText alice := sample_key]> (publicKeyCache (store salted))))
        [SchnorrPublicKey (derivationPath sample_salt alice) KEY_ID_NAME],
      Ok sample_key)
  /\ run sample_provider (getPublicKey alice) warmed = (warmed, Ok sample_key).
Proof.
  destruct (getPublicKey_cached_or_fetched sample_provider alice salted
              authenticated_alice) as (_ & _ & Hfetch & _).
  destruct (getPublicKey_cached_or_fetched sample_provider alice warmed
              authenticated_alice) as (Hhit & _).
  split; [exact authenticated_alice|]. split.
  - assert (Hmiss : cached_key salted alice = None) by (vm_compute; reflexivity).
    assert (Hsalt : salt_of salted = Some sample_salt) by (vm_compute; reflexivity).
    pose proof (Hfetch sample_salt Hmiss Hsalt) as Hcases. cbv zeta in Hcases.
    destruct Hcases as (_ & _ & Hgood).
    apply (Hgood (repeat 9 32%nat)); [reflexivity|split; reflexivity].
  - apply Hhit. vm_compute. reflexivity.
Defined.

(** ** C4: message validation in [sign] *)

(** C4. For an authenticated caller, [sign] fails with [EmptyMessage] on a
    message of length 0 and with [MessageTooLarge] on a message longer than
    1,048,576 bytes; in both cases the machine is left as it was (no request
    was sent) and the answer does not depend on the salt.  For a message of
    1 to 1,048,576 bytes (both bounds included), with the salt present and a
    reply that carries an array of exactly 64 elements, it sends one
    [sign_with_schnorr] request and returns a 64-byte signature. *)
Theorem sign_message_bounds provider caller message m :
  authenticated caller ->
  (js_length message = 0 ->
     run provider (sign caller message) m = (m, Err EmptyMessage))
  /\ (js_length message > 1048576 ->
      run provider (sign caller message) m = (m, Err MessageTooLarge))
  /\ (forall salt elems,
        1 <= js_length message <= 1048576 ->
        salt_of m = Some salt ->
        ok (provider (SignWithSchnorr message (derivationPath salt caller)
                        KEY_ID_NAME SIGN_CYCLES)) = true ->
        signature_reply
          (provider (SignWithSchnorr message (derivationPath salt caller)
                       KEY_ID_NAME SIGN_CYCLES)) elems ->
        run provider (sign caller message) m =
        (mkMachine (store m)
           (calls m ++ [SignWithSchnorr message (derivationPath salt caller)
                          KEY_ID_NAME SIGN_CYCLES]),
         Ok (new_Uint8Array elems))
        /\ List.length (new_Uint8Array elems) = 64%nat).
Proof.
  intros Hauth. apply authenticated_eqb in Hauth.
  rewrite run_sign, Hauth. unfold MIN_MESSAGE_BYTES, MAX_MESSAGE_BYTES.
  split; [|split].
  - intros Hlen. rewrite Hlen. reflexivity.
  - intros Hlen.
    destruct (js_length message <? 1) eqn:H1; [apply Z.ltb_lt in H1; lia|].
    destruct (js_length message >? 1024 * 1024) eqn:H2; [reflexivity|].
    rewrite Z.gtb_ltb in H2. apply Z.ltb_ge in H2. lia.
  - intros salt elems Hlen Hsalt Hok [Hm Helems].
    destruct (js_length message <? 1) eqn:H1; [apply Z.ltb_lt in H1; lia|].
    destruct (js_length message >? 1024 * 1024) eqn:H2;
      [rewrite Z.gtb_ltb in H2; apply Z.ltb_lt in H2; lia|].
    rewrite Hsalt. cbv zeta. rewrite Hok, shape_checks, Hm. cbn [negb array_elems].
    change 64 with (Z.of_nat 64). rewrite js_length_eqb, Helems. cbn [Nat.eqb negb].
    split; [reflexivity|]. now rewrite new_Uint8Array_length.
Qed.

Lemma sign_message_bounds_witness :
  authenticated alice
  /\ run sample_provider (sign alice []) salted = (salted, Err EmptyMessage)
  /\ run sample_provider (sign alice [x2a]) salted =
     (mkMachine (store salted)
        [SignWithSchnorr [x2a] (derivationPath sample_salt alice) KEY_ID_NAME SIGN_CYCLES],
      Ok (repeat x05 64))
  /\ run sample_provider (sign alice largest_message) salted =
     (mkMachine (store salted)
        [SignWithSchnorr largest_message (derivationPath sample_salt alice)
           KEY_ID_NAME SIGN_CYCLES],
      Ok (repeat x05 64)).
Proof.
  destruct (sign_message_bounds sample_provider alice [] salted authenticated_alice)
    as (Hempty & _ & _).
  destruct (sign_message_bounds sample_provider alice [x2a] salted authenticated_alice)
    as (_ & _ & Hone).
  destruct (sign_message_bounds sample_provider alice largest_message salted
              authenticated_alice) as (_ & _ & Hmax).
  split; [exact authenticated_alice|]. split; [|split].
  - apply Hempty. reflexivity.
  - apply (Hone sample_salt (repeat 5 64%nat)).
    + vm_compute. split; discriminate.
    + vm_compute. reflexivity.
    + reflexivity.
    + split; reflexivity.
  - apply (Hmax sample_salt (repeat 5 64%nat)).
    + vm_compute. split; discriminate.
    + vm_compute. reflexivity.
    + reflexivity.
    + split; reflexivity.
Defined.

(** ** C6: the anonymous caller *)

(** C6. Called by the anonymous identity, each of [initializeSalt],
    [getPublicKey], [getAddressData], [sign], [signWithPublicKey],
    [signWithHex] and [clearPublicKeyCache] fails with [Unauthenticated] and
    leaves the machine as it was: no state is written and no request is sent,
    whatever the arguments, the state and the provider.  [isInitialized]
    does not look at the caller and answers it like anybody else. *)
Theorem anonymous_is_rejected provider caller m :
  Principal.toText caller = ANONYMOUS_PRINCIPAL_TEXT ->
  run provider (initializeSalt caller) m = (m, Err Unauthenticated)
  /\ run provider (getPublicKey caller) m = (m, Err Unauthenticated)
  /\ (forall networkPrefix,
        run provider (getAddressData caller networkPrefix) m = (m, Err Unauthenticated))
  /\ (forall message, run provider (sign caller message) m = (m, Err Unauthenticated))
  /\ (forall message,
        run provider (signWithPublicKey caller message) m = (m, Err Unauthenticated))
  /\ (forall message,
        run provider (signWithHex caller message) m = (m, Err Unauthenticated))
  /\ run provider (clearPublicKeyCache caller) m = (m, Err Unauthenticated)
  /\ run provider (call_prog caller IsInitialized) m =
     (m, Ok (RBool (match salt_of m with Some _ => true | None => false end))).
Proof.
  intros Hanon. apply String.eqb_eq in Hanon.
  assert (Hsign : forall message,
             run provider (sign caller message) m = (m, Err Unauthenticated)).
  { intros message. now rewrite run_sign, Hanon. }
  assert (Hkey : run provider (getPublicKeyForCaller caller) m = (m, Err Unauthenticated)).
  { now rewrite run_getPublicKeyForCaller, Hanon. }
  repeat split.
  - now rewrite run_initializeSalt, Hanon.
  - exact Hkey.
  - intros networkPrefix. now rewrite run_getAddressData, Hkey.
  - exact Hsign.
  - intros message. unfold signWithPublicKey. now rewrite run_bind, Hsign.
  - intros message. unfold signWithHex. now rewrite run_bind, Hsign.
  - now rewrite run_clearPublicKeyCache, Hanon.
Qed.

Lemma anonymous_is_rejected_witness :
  Principal.toText Principal.anonymous = ANONYMOUS_PRINCIPAL_TEXT
  /\ run sample_provider (initializeSalt Principal.anonymous) fresh =
     (fresh, Err Unauthenticated)
  /\ run sample_provider (clearPublicKeyCache Principal.anonymous) warmed =
     (warmed, Err Unauthenticated).
Proof.
  split; [exact toText_anonymous|]. split.
  - apply (anonymous_is_rejected sample_provider Principal.anonymous fresh
             toText_anonymous).
  - apply (anonymous_is_rejected sample_provider Principal.anonymous warmed
             toText_anonymous).
Defined.

(** ** C9: [sign] writes nothing *)

(** C9. Whether it returns or throws, a call of [sign] leaves the three
    stable maps exactly as they were: run to completion, the store after
    the call is the store before it; and taken in its two halves, neither
    the part before the [fetch] nor the part that handles the response
    changes the store it runs on. *)
Theorem sign_leaves_state provider caller message m :
  store (fst (run provider (sign caller message) m)) = store m
  /\ (forall s, fst (advance (sign caller message) s) = s)
  /\ (forall s response s',
        fst (resume (snd (advance (sign caller message) s)) response s') = s').
Proof.
  split.
  - rewrite run_sign. cbv zeta.
    repeat match goal with
           | |- context [if ?b then _ else _] => destruct b
           | |- context [match salt_of m with _ => _ end] => destruct (salt_of m)
           end; reflexivity.
  - assert (Hhalves : forall s,
               advance (sign caller message) s = (s, snd (advance (sign caller message) s))
               /\ forall response s',
                   fst (resume (snd (advance (sign caller message) s)) response s') = s').
    { intros s. unfold sign, getAuthenticatedCaller, validateMessage.
      destruct (String.eqb _ _); [split; reflexivity|].
      cbn [bind advance].
      destruct (js_length message <? MIN_MESSAGE_BYTES); [split; reflexivity|].
      destruct (js_length message >? MAX_MESSAGE_BYTES); [split; reflexivity|].
      cbn [bind advance canisterSalt_get].
      destruct (canisterSalt s !! "salt") as [salt|]; [|split; reflexivity].
      cbn [bind advance snd]. split; [reflexivity|].
      intros response s'. cbn [resume].
      destruct (negb (ok response)); [reflexivity|].
      destruct (_ || _ || _); [reflexivity|].
      destruct (negb (_ =? 64)); reflexivity. }
    split.
    + intros s. destruct (Hhalves s) as [-> _]. reflexivity.
    + intros s. apply Hhalves.
Qed.

(** ** C10: clearing twice *)

(** C10. For the recorded owner, [clearPublicKeyCache] returns [true] and
    leaves an empty cache; a second call on the resulting state returns
    [true] again and changes nothing; on a cache that is already empty the
    call returns [true] and changes nothing. *)
Theorem clearPublicKeyCache_idempotent provider provider' caller m :
  authenticated caller ->
  owner_of m = Some caller ->
  let m1 := fst (run provider (clearPublicKeyCache caller) m) in
  snd (run provider (clearPublicKeyCache caller) m) = Ok true
  /\ publicKeyCache (store m1) = ∅
  /\ run provider' (clearPublicKeyCache caller) m1 = (m1, Ok true)
  /\ (publicKeyCache (store m) = ∅ ->
      run provider (clearPublicKeyCache caller) m = (m, Ok true)).
Proof.
  intros Hauth Howner. apply authenticated_eqb in Hauth. cbv zeta.
  rewrite !run_clearPublicKeyCache, Hauth, Howner. cbn [fst snd store publicKeyCache].
  repeat split.
  - unfold owner_of. cbn [store canisterOwner]. fold (owner_of m). rewrite Howner.
    reflexivity.
  - intros Hempty. rewrite <- Hempty, state_eta, machine_eta. reflexivity.
Qed.

Lemma clearPublicKeyCache_idempotent_witness :
  authenticated alice /\ owner_of warmed = Some alice
  /\ snd (run sample_provider (clearPublicKeyCache alice) warmed) = Ok true
  /\ publicKeyCache
       (store (fst (run sample_provider (clearPublicKeyCache alice) warmed))) = ∅.
Proof.
  assert (Howner : owner_of warmed = Some alice) by (vm_compute; reflexivity).
  pose proof (clearPublicKeyCache_idempotent sample_provider sample_provider alice warmed
                authenticated_alice Howner) as Hclear.
  cbv zeta in Hclear. destruct Hclear as (Htrue & Hempty & _).
  split; [exact authenticated_alice|]. split; [exact Howner|].
  split; [exact Htrue|exact Hempty].
Defined.

(** ** C8: the composed signing methods *)

(** C8. [signWithPublicKey] and [signWithHex] run [sign] and then
    [getPublicKeyForCaller] for the same caller: a failure of [sign] is the
    failure of the composed call, with nothing run after it; when [sign]
    returns, a failure of the key retrieval is the failure of the composed
    call; when both return, the composed call returns the signature of
    [sign] and the key just retrieved, which is then the caller's cached
    key.  The hex fields of [signWithHex] are [0x], then two lowercase hex
    digits per byte and nothing else, and decode back to the signature and
    the key.  Neither composed call sends more than two requests. *)
Theorem composed_signing provider caller message m :
  match run provider (sign caller message) m with
  | (m1, Err e) =>
      run provider (signWithPublicKey caller message) m = (m1, Err e)
      /\ run provider (signWithHex caller message) m = (m1, Err e)
  | (m1, Ok sig) =>
      match run provider (getPublicKeyForCaller caller) m1 with
      | (m2, Err e) =>
          run provider (signWithPublicKey caller message) m = (m2, Err e)
          /\ run provider (signWithHex caller message) m = (m2, Err e)
      | (m2, Ok key) =>
          run provider (signWithPublicKey caller message) m =
            (m2, Ok (mkSignatureResult sig key))
          /\ run provider (signWithHex caller message) m =
            (m2, Ok (mkSignatureHexResult sig (bytesToHex sig) key (bytesToHex key)))
          /\ well_formed_hex sig (bytesToHex sig)
          /\ well_formed_hex key (bytesToHex key)
          /\ cached_key m2 caller = Some key
      end
  end
  /\ (List.length (calls (fst (run provider (signWithPublicKey caller message) m)))
      <= List.length (calls m) + 2)%nat
  /\ (List.length (calls (fst (run provider (signWithHex caller message) m)))
      <= List.length (calls m) + 2)%nat.
Proof.
  assert (Hsign : (List.length (calls (fst (run provider (sign caller message) m)))
                   <= List.length (calls m) + 1)%nat).
  { rewrite run_sign. cbv zeta.
    repeat match goal with
           | |- context [if ?b then _ else _] => destruct b
           | |- context [match salt_of m with _ => _ end] => destruct (salt_of m)
           end; cbn [fst calls]; rewrite ?length_app; cbn [List.length]; lia. }
  assert (Hkey : forall m1,
             (List.length (calls (fst (run provider (getPublicKeyForCaller caller) m1)))
              <= List.length (calls m1) + 1)%nat).
  { intros m1. rewrite run_getPublicKeyForCaller. cbv zeta.
    repeat match goal with
           | |- context [if ?b then _ else _] => destruct b
           | |- context [match salt_of m1 with _ => _ end] => destruct (salt_of m1)
           | |- context [match cached_key m1 caller with _ => _ end] =>
               destruct (cached_key m1 caller)
           end; cbn [fst calls]; rewrite ?length_app; cbn [List.length]; lia. }
  unfold signWithPublicKey, signWithHex. rewrite !run_bind.
  destruct (run provider (sign caller message) m) as [m1 [sig|e]] eqn:Hrun1;
    cbn [fst] in Hsign.
  2: { repeat split; cbn [fst]; lia. }
  rewrite !run_bind. specialize (Hkey m1).
  destruct (run provider (getPublicKeyForCaller caller) m1) as [m2 [key|e]] eqn:Hrun2;
    cbn [fst] in Hkey; cbn [run fst].
  2: { repeat split; lia. }
  repeat split; try lia; try apply bytesToHex_well_formed.
  apply (getPublicKeyForCaller_caches _ _ _ _ _ Hrun2).
Qed.

Example composed_signing_sample :
  run sample_provider (signWithHex alice [x2a]) salted =
  (mkMachine
     (mkState {["salt" := sample_salt]} {["owner" := alice]}
        {[Principal.toText alice := sample_key]})
     [SignWithSchnorr [x2a] (derivationPath sample_salt alice) KEY_ID_NAME SIGN_CYCLES;
      SchnorrPublicKey (derivationPath sample_salt alice) KEY_ID_NAME],
   Ok (mkSignatureHexResult (repeat x05 64)
         ("0x0505050505050505050505050505050505050505050505050505050505050505"
          ++ "0505050505050505050505050505050505050505050505050505050505050505")
         sample_key
         "0x0909090909090909090909090909090909090909090909090909090909090909")).
Proof. vm_compute. reflexivity. Qed.

(** ** C1, C2: the owner test on a caller who is not the owner *)

(** Once an owner is recorded, no authenticated caller is ever turned away
    by [initializeSalt] for not being the owner. *)
Lemma initializeSalt_never_NotOwner provider caller m owner :
  authenticated caller ->
  owner_of m = Some owner ->
  snd (run provider (initializeSalt caller) m) <> Err NotOwner.
Proof.
  intros Hauth Howner. apply authenticated_eqb in Hauth.
  rewrite run_initializeSalt, Hauth, Howner. cbv zeta.
  repeat match goal with
         | |- context [if ?b then _ else _] => destruct b
         | |- context [match salt_of m with _ => _ end] => destruct (salt_of m)
         end; cbn [snd]; discriminate.
Qed.

(** C1. With owner [alice] recorded and no salt yet, [initializeSalt]
    called by [bob], who is authenticated and is not [alice], passes the
    owner test ([compareTo] answers ['gt'], a truthy string), asks the
    provider for randomness and stores the salt. *)
Theorem initializeSalt_by_non_owner :
  bob <> alice
  /\ authenticated bob
  /\ owner_of fresh = Some alice
  /\ salt_of fresh = None
  /\ Principal.compareTo bob alice = "gt"
  /\ owner_check_fails (Some alice) bob = false
  /\ run sample_provider (initializeSalt bob) fresh =
     (mkMachine (mkState {["salt" := sample_salt]} {["owner" := alice]} ∅) [RawRand],
      Ok "Salt initialized successfully with secure randomness").
Proof.
  split; [discriminate|]. split; [exact authenticated_bob|].
  repeat split; vm_compute; reflexivity.
Qed.

(** C2. With owner [alice] recorded and [alice]'s key cached,
    [clearPublicKeyCache] called by [bob] returns [true] and empties the
    cache. *)
Theorem clearPublicKeyCache_by_non_owner :
  bob <> alice
  /\ authenticated bob
  /\ owner_of warmed = Some alice
  /\ cached_key warmed alice = Some sample_key
  /\ run sample_provider (clearPublicKeyCache bob) warmed =
     (mkMachine (mkState {["salt" := sample_salt]} {["owner" := alice]} ∅) [], Ok true).
Proof.
  split; [discriminate|]. split; [exact authenticated_bob|].
  repeat split; vm_compute; reflexivity.
Qed.

(** ** C3: [getAddressData] *)







(** ** C5: the salt is written once *)

(** A call other than a completed [initializeSalt] leaves the salt map as
    it was; a completed [initializeSalt] started without salt and ends with
    one. *)
Lemma exec_salt (i : Invocation) (m : Machine) :
  (canisterSalt (store (fst (exec i m))) = canisterSalt (store m)
   /\ initialized_by i m = false)
  \/ (salt_of m = None /\ initialized_by i m = true
      /\ has_salt (fst (exec i m)) = true).
Proof.
  destruct i as [caller c provider].
  destruct c;
    try (left; split;
         [match goal with
          | |- context [mkInvocation caller ?c provider] =>
              apply (respects_call_prog caller c ltac:(discriminate) provider m)
          end
         |reflexivity]).
  unfold initialized_by, exec. cbn [inv_caller inv_call inv_provider call_prog].
  rewrite run_bind, run_initializeSalt.
  destruct (String.eqb _ _); [left; now split|].
  destruct (owner_of m); [|left; now split].
  destruct (salt_of m) eqn:Hsalt; [left; now split|].
  cbv zeta. destruct (negb (ok _)); [left; now split|].
  destruct (_ || _ || _); [left; now split|].
  right. cbn [run fst snd is_ok]. repeat split.
  unfold has_salt, salt_of. cbn [store canisterSalt].
  now rewrite lookup_insert_eq.
Qed.

Lemma exec_has_salt (i : Invocation) (m : Machine) :
  has_salt (fst (exec i m)) = has_salt m || initialized_by i m.
Proof.
  destruct (exec_salt i m) as [[Hsame ->]|(Hnone & -> & ->)].
  - rewrite orb_false_r. unfold has_salt, salt_of. now rewrite Hsame.
  - now rewrite orb_true_r.
Qed.

Lemma replay_has_salt (history : list Invocation) :
  forall m, has_salt (fst (replay history m)) = has_salt m || snd (replay history m).
Proof.
  induction history as [|i rest IH]; intros m; cbn [replay].
  - cbn. now rewrite orb_false_r.
  - specialize (IH (fst (exec i m))).
    destruct (replay rest (fst (exec i m))) as [m' later]. cbn [fst snd] in *.
    rewrite IH, exec_has_salt. now rewrite orb_assoc.
Qed.

(** C5, as amended. Calls are run to completion one after the other.
    Once the salt slot is present no call changes the salt map; a later
    [initializeSalt] always fails and leaves the machine as it was, with
    [AlreadyInitialized] for the recorded owner and with [Unauthenticated]
    for the anonymous caller; [isInitialized] never fails, does not depend
    on the caller, and after any history that starts without salt it
    answers whether some [initializeSalt] of the history completed. *)
Theorem salt_is_written_once :
  (forall i m salt,
      salt_of m = Some salt ->
      canisterSalt (store (fst (exec i m))) = canisterSalt (store m))
  /\ (forall provider caller m salt,
        salt_of m = Some salt ->
        (exists e, run provider (initializeSalt caller) m = (m, Err e))
        /\ (authenticated caller -> owner_of m = Some caller ->
            run provider (initializeSalt caller) m = (m, Err AlreadyInitialized))
        /\ (Principal.toText caller = ANONYMOUS_PRINCIPAL_TEXT ->
            run provider (initializeSalt caller) m = (m, Err Unauthenticated)))
  /\ (forall provider caller m,
        run provider (call_prog caller IsInitialized) m = (m, Ok (RBool (has_salt m))))
  /\ (forall provider history m,
        salt_of m = None ->
        run provider isInitialized (fst (replay history m)) =
        (fst (replay history m), Ok (snd (replay history m)))).
Proof.
  split; [|split; [|split]].
  - intros i m salt Hsalt.
    destruct (exec_salt i m) as [[Hsame _]|(Hnone & _)]; [assumption|congruence].
  - intros provider caller m salt Hsalt.
    rewrite run_initializeSalt, Hsalt.
    repeat split.
    + destruct (String.eqb _ _); [eexists; reflexivity|].
      destruct (owner_of m); eexists; reflexivity.
    + intros Hauth Howner. apply authenticated_eqb in Hauth.
      now rewrite Hauth, Howner.
    + intros Hanon. apply String.eqb_eq in Hanon. now rewrite Hanon.
  - intros provider caller m. reflexivity.
  - intros provider history m Hsalt.
    rewrite run_isInitialized. fold (has_salt (fst (replay history m))).
    rewrite replay_has_salt. unfold has_salt at 1. now rewrite Hsalt.
Qed.

Lemma salt_is_written_once_witness :
  run sample_provider (initializeSalt alice) salted = (salted, Err AlreadyInitialized)
  /\ canisterSalt
       (store (fst (exec (mkInvocation bob ClearPublicKeyCache sample_provider) salted)))
     = canisterSalt (store salted)
  /\ snd (run sample_provider isInitialized
            (fst (replay [mkInvocation bob GetPublicKey sample_provider;
                          mkInvocation alice InitializeSalt sample_provider;
                          mkInvocation alice (Sign [x2a]) sample_provider] fresh)))
     = Ok true
  /\ snd (run sample_provider isInitialized
            (fst (replay [mkInvocation bob GetPublicKey sample_provider] fresh)))
     = Ok false.
Proof.
  destruct salt_is_written_once as (Hkeep & Hlater & _ & Hhistory).
  assert (Hsalt : salt_of salted = Some sample_salt) by (vm_compute; reflexivity).
  assert (Hfresh : salt_of fresh = None) by (vm_compute; reflexivity).
  split; [|split; [|split]].
  - apply (Hlater sample_provider alice salted sample_salt Hsalt).
    + exact authenticated_alice.
    + vm_compute. reflexivity.
  - apply (Hkeep _ salted sample_salt Hsalt).
  - rewrite (Hhistory sample_provider _ fresh Hfresh). vm_compute. reflexivity.
  - rewrite (Hhistory sample_provider _ fresh Hfresh). vm_compute. reflexivity.
Defined.

(** C5, as stated, at the anonymous caller: after [alice] has initialized the
    salt, a further [initializeSalt] by the anonymous caller fails with
    [Unauthenticated], not with [AlreadyInitialized]. *)
Lemma later_initializeSalt_by_anonymous :
  let after_first := fst (run sample_provider (initializeSalt alice) fresh) in
  is_ok (snd (run sample_provider (initializeSalt alice) fresh)) = true
  /\ has_salt after_first = true
  /\ run sample_provider (initializeSalt Principal.anonymous) after_first =
     (after_first, Err Unauthenticated)
  /\ snd (run sample_provider (initializeSalt Principal.anonymous) after_first)
     <> Err AlreadyInitialized.
Proof.
  cbv zeta. repeat split; try (vm_compute; reflexivity).
  vm_compute. discriminate.
Qed.

(** ** Calls that overlap *)

(** [run] is [advance] with every response delivered at once. *)
Lemma run_advance {A : Type} (provider : Provider) (p : Prog A) :
  forall m,
    run provider p m =
    match advance p (store m) with
    | (s, Finished r) => (mkMachine s (calls m), r)
    | (s, Awaiting req k) =>
        run provider (k (provider req)) (mkMachine s (calls m ++ [req]))
    end.
Proof.
  induction p as [a|e|k IH|s k IH|req k IH]; intros m; cbn [run advance].
  - now rewrite machine_eta.
  - now rewrite machine_eta.
  - apply IH.
  - apply (IH (mkMachine s (calls m))).
  - reflexivity.
Qed.

(** Two [initializeSalt] calls of the owner that are both parked at
    [raw_rand] before either response arrives both complete, and the second
    response replaces the salt stored from the first. *)
Lemma overlapping_initializeSalt :
  let first := advance (initializeSalt alice) (store fresh) in
  let second := advance (initializeSalt alice) (fst first) in
  let first_done := resume (snd first) (randomness 7) (fst second) in
  let second_done := resume (snd second) (randomness 8) (fst first_done) in
  canisterSalt (fst first_done) !! "salt" = Some (repeat x07 32)
  /\ canisterSalt (fst second_done) !! "salt" = Some (repeat x08 32)
  /\ snd first_done
     = Finished (Ok "Salt initialized successfully with secure randomness")
  /\ snd second_done
     = Finished (Ok "Salt initialized successfully with secure randomness").
Proof. cbv zeta. repeat split; vm_compute; reflexivity. Qed.
